(** * The integration driver of ucr2-integration-requests

    A shallow embedding of [intg-requests/driver.py]: the start-up
    registration of media player entities, the command handler relay and
    the six event handlers registered with the integration API.

    The driver is a set of callbacks around three collaborators that it
    reaches through module-level objects: the config store
    ([config.setup]), the integration API object ([api], from the [ucapi]
    library) and the command dispatcher ([media_player.mp_cmd_assigner]).
    Their state is gathered in one record, [World], which every driver
    function threads through a state-and-exception monad. *)

From stdpp Require Import gmap strings list fin_maps.

(** ** Python values

    What the key-value store and the command parameters may hold: the
    scalars of the JSON file the store is loaded from. Only the
    distinction between a [str] and anything else matters to the driver
    (string concatenation raises on the latter). *)
Module python.

Inductive value : Type :=
| VNone
| VBool (b : bool)
| VInt (z : Z)
| VStr (s : string).

(** Exceptions that can leave a driver function. [Other] stands for
    whatever an external collaborator raises. *)
Inductive Exn : Type :=
| LookupFailure (key : string)
| TypeError
| Other (what : string).

End python.
Import python.

(** ** The [logging] module, reduced to the records the driver emits *)
Module logging.

Inductive Level : Type := DEBUG | INFO.

(** A message is kept as its pieces. A piece that Python renders with
    [str()] of an object that is not a string (the parameter dict of a
    command, the list of entity ids) is kept as that object. *)
Inductive Piece : Type :=
| Text (s : string)
| OfParams (p : gmap string value)
| OfIds (ids : list string).

Record LogRecord : Type := { level : Level; message : list Piece }.

End logging.

(** ** The parts of the [ucapi] library the driver calls *)
Module ucapi.

Inductive DeviceStates : Type :=
| CONNECTED | CONNECTING | DISCONNECTED | ERROR.

Inductive StatusCodes : Type :=
| OK | BAD_REQUEST | UNAUTHORIZED | NOT_FOUND | TIMEOUT | CONFLICT
| SERVER_ERROR | NOT_IMPLEMENTED | SERVICE_UNAVAILABLE.

Inductive Events : Type :=
| CONNECT | DISCONNECT | ENTER_STANDBY | EXIT_STANDBY
| SUBSCRIBE_ENTITIES | UNSUBSCRIBE_ENTITIES.

(** [ucapi.media_player.Features]; the driver only uses
    [SELECT_SOURCE]. *)
Inductive Features : Type :=
| ON_OFF | TOGGLE | VOLUME | VOLUME_UP_DOWN | MUTE_TOGGLE | MUTE | UNMUTE
| PLAY_PAUSE | STOP | NEXT | PREVIOUS | FAST_FORWARD | REWIND | REPEAT
| SHUFFLE | SEEK | MEDIA_DURATION | MEDIA_POSITION | MEDIA_TITLE
| MEDIA_ARTIST | MEDIA_ALBUM | MEDIA_IMAGE_URL | MEDIA_TYPE | DPAD
| NUMPAD | HOME | MENU | CONTEXT_MENU | GUIDE | INFO | COLOR_BUTTONS
| CHANNEL_SWITCHER | SELECT_SOURCE | SELECT_SOUND_MODE.

(** The command handler bound to an entity is a reference to a function
    of the driver; the driver has one. *)
Inductive CommandHandler : Type := mp_cmd_handler_ref.

(** [ucapi.MediaPlayer(identifier, name, features, attributes,
    cmd_handler=...)]: the record keeps the constructor's arguments. *)
Record MediaPlayer : Type := {
  id : string;
  name : string;
  features : list Features;
  attributes : gmap string value;
  cmd_handler : CommandHandler
}.

(** [api.available_entities] and [api.configured_entities] are
    [Entities] objects: a dict from entity id to entity. The map keeps
    which entity is stored under which id; the order in which the dict
    would list them is not part of it. *)
Abbreviation Entities := (gmap string MediaPlayer).

(** [Entities.contains(entity_id)]: [entity_id in self._storage]. The
    argument is whatever the caller passes; the keys are strings, so a
    value that is not a string is never found. *)
Definition contains (entity_id : value) (storage : Entities) : bool :=
  match entity_id with
  | VStr i => bool_decide (is_Some (storage !! i))
  | _ => false
  end.

(** [Entities.add(entity)]: refuses (returns [False]) an entity whose id
    is already stored, otherwise stores it under its id. *)
Definition add (entity : MediaPlayer) (storage : Entities)
  : bool * Entities :=
  match storage !! id entity with
  | Some _ => (false, storage)
  | None => (true, <[id entity := entity]> storage)
  end.

End ucapi.

(** ** The config store *)
Module config.

(** Modelled from the spec: the class [setup] of the module [config],
    whose source is missing. The store is "a key-value store persisted
    to disk, exposing [get(key)] and [set(key, value)]", which "holds a
    list of command identifiers, per-command display name/id pairs, and
    a standby flag". [cmds] is read as an attribute of the store, the
    rest by key. *)
Record setup : Type := {
  cmds : list string;
  conf : gmap string value
}.

(** Modelled from the spec: [config.setup.get(key)]. A key that is
    absent is "an unhandled lookup failure", here [None]. *)
Definition get (key : string) (c : setup) : option value :=
  conf c !! key.

(** Modelled from the spec: [config.setup.set(key, value)] stores the
    value under the key and leaves the other entries alone. *)
Definition set (key : string) (v : value) (c : setup) : setup :=
  {| cmds := cmds c; conf := <[key := v]> (conf c) |}.

End config.

(** ** The world the driver runs in *)

Record World : Type := {
  setup : config.setup;
  available_entities : ucapi.Entities;
  configured_entities : ucapi.Entities;
  device_state : ucapi.DeviceStates;
  log : list logging.LogRecord
}.

(** Everything but the log of the driver's logger. *)
Definition state_of (w : World)
  : config.setup * ucapi.Entities * ucapi.Entities * ucapi.DeviceStates :=
  (setup w, available_entities w, configured_entities w, device_state w).

(** ** Running Python code: state and exceptions *)

Inductive Outcome (A : Type) : Type :=
| Returned (a : A)
| Raised (e : Exn).
Arguments Returned {A} a.
Arguments Raised {A} e.

Definition M (A : Type) : Type := World → Outcome A * World.

Definition ret {A} (a : A) : M A := λ w, (Returned a, w).

Definition raise {A} (e : Exn) : M A := λ w, (Raised e, w).

Definition bind {A B} (m : M A) (k : A → M B) : M B :=
  λ w, match m w with
       | (Returned a, w') => k a w'
       | (Raised e, w') => (Raised e, w')
       end.

Notation "'let!' x ':=' m 'in' k" := (bind m (λ x, k))
  (at level 10, x name, m at level 100, k at level 200,
   format "'[v' 'let!'  x  ':='  m  'in'  '/' k ']'").
Notation "m >>! k" := (bind m (λ _, k))
  (at level 100, k at level 200, right associativity,
   format "'[v' m  >>!  '/' k ']'").

(** [for x in l: body(x)] *)
Fixpoint for_each {A} (body : A → M unit) (l : list A) : M unit :=
  match l with
  | [] => ret tt
  | x :: l' => body x >>! for_each body l'
  end.

(** The world an action ends in, and what it yields. *)
Definition exec {A} (m : M A) (w : World) : World := (m w).2.
Definition eval {A} (m : M A) (w : World) : Outcome A := (m w).1.

(** *** The collaborators as actions *)

(** [_LOG.debug(msg)] and [_LOG.info(msg)] *)
Definition emit (l : logging.Level) (msg : list logging.Piece) : M unit :=
  λ w, (Returned tt,
        {| setup := setup w;
           available_entities := available_entities w;
           configured_entities := configured_entities w;
           device_state := device_state w;
           log := log w ++ [ {| logging.level := l;
                                logging.message := msg |} ] |}).

Definition LOG_debug (msg : string) : M unit :=
  emit logging.DEBUG [logging.Text msg].
Definition LOG_info (msg : string) : M unit :=
  emit logging.INFO [logging.Text msg].

(** [config.setup.cmds] *)
Definition config_cmds : M (list string) :=
  λ w, (Returned (config.cmds (setup w)), w).

(** [config.setup.get(key)] *)
Definition config_get (key : string) : M value :=
  λ w, match config.get key (setup w) with
       | Some v => (Returned v, w)
       | None => (Raised (LookupFailure key), w)
       end.

(** [config.setup.set(key, value)] *)
Definition config_set (key : string) (v : value) : M unit :=
  λ w, (Returned tt,
        {| setup := config.set key v (setup w);
           available_entities := available_entities w;
           configured_entities := configured_entities w;
           device_state := device_state w;
           log := log w |}).

(** [api.available_entities.contains(id)] *)
Definition available_contains (entity_id : value) : M bool :=
  λ w, (Returned (ucapi.contains entity_id (available_entities w)), w).

(** [api.available_entities.add(definition)] *)
Definition available_add (entity : ucapi.MediaPlayer) : M bool :=
  λ w, let r := ucapi.add entity (available_entities w) in
       (Returned r.1,
        {| setup := setup w;
           available_entities := r.2;
           configured_entities := configured_entities w;
           device_state := device_state w;
           log := log w |}).

(** [await api.set_device_state(state)]: the API object records the
    state (and tells the connected remotes, which is outside this
    model). *)
Definition set_device_state (st : ucapi.DeviceStates) : M unit :=
  λ w, (Returned tt,
        {| setup := setup w;
           available_entities := available_entities w;
           configured_entities := configured_entities w;
           device_state := st;
           log := log w |}).

(** The right operand of ["literal" + x]: Python raises [TypeError]
    unless [x] is a [str]. *)
Definition str_operand (v : value) : M string :=
  match v with
  | VStr s => ret s
  | _ => raise TypeError
  end.

(** ** The driver *)

(** The entity definition [add_mp] builds:
    [ucapi.MediaPlayer(id, name, [Features.SELECT_SOURCE], attributes={},
    cmd_handler=mp_cmd_handler)]. *)
Definition mp_definition (id name : string) : ucapi.MediaPlayer :=
  {| ucapi.id := id;
     ucapi.name := name;
     ucapi.features := [ucapi.SELECT_SOURCE];
     ucapi.attributes := ∅;
     ucapi.cmd_handler := ucapi.mp_cmd_handler_ref |}.

(** [add_mp(id, name)] *)
Definition add_mp (id name : string) : M unit :=
  let definition := mp_definition id name in
  let! _ := available_add definition in
  LOG_info ("Added media player entity with id " +:+ id
            +:+ " and name " +:+ name).

(** The body of the loop of [startcheck], for one [cmd]. Both lookups
    come first. In either branch the message is built by concatenation
    before anything is logged, left to right, so [id] is needed as a
    string in both and [name] in the second only. *)
Definition startcheck_body (cmd : string) : M unit :=
  let! id := config_get ("id-" +:+ cmd) in
  let! name := config_get ("name-" +:+ cmd) in
  let! present := available_contains id in
  if present : bool then
    let! i := str_operand id in
    LOG_debug ("Entity with id " +:+ i
               +:+ " is already in storage as available entity")
  else
    let! i := str_operand id in
    let! n := str_operand name in
    LOG_info ("Add entity with id " +:+ i +:+ " and name " +:+ n
              +:+ " as available entity") >>!
    add_mp i n.

(** [startcheck()] *)
Definition startcheck : M unit :=
  let! l := config_cmds in
  for_each startcheck_body l.

Section Relay.

(** [media_player.mp_cmd_assigner(id, cmd_name, params)]: the command
    dispatcher of the module [media_player], kept abstract. It may read
    and change the world and may raise. *)
Variable mp_cmd_assigner :
  string → string → option (gmap string value) → M ucapi.StatusCodes.

(** [mp_cmd_handler(entity, cmd_id, _params)] *)
Definition mp_cmd_handler (entity : ucapi.MediaPlayer) (cmd_id : string)
    (_params : option (gmap string value)) : M ucapi.StatusCodes :=
  match _params with
  | None =>
      emit logging.INFO
        [logging.Text ("Received " +:+ cmd_id +:+ " command for "
                       +:+ ucapi.id entity)]
  | Some p =>
      emit logging.INFO
        [logging.Text ("Received " +:+ cmd_id
                       +:+ " command with parameter ");
         logging.OfParams p;
         logging.Text (" for " +:+ ucapi.id entity)]
  end >>!
  mp_cmd_assigner (ucapi.id entity) cmd_id _params.

End Relay.

(** *** Event handlers *)

Definition on_r2_connect : M unit :=
  LOG_info "Received connect event message from remote" >>!
  set_device_state ucapi.CONNECTED.

Definition on_r2_disconnect : M unit :=
  LOG_info "Received disconnect event message from remote" >>!
  set_device_state ucapi.DISCONNECTED.

Definition on_r2_enter_standby : M unit :=
  LOG_info "Received enter standby event message from remote" >>!
  LOG_debug "Set config.R2_IN_STANDBY to True" >>!
  config_set "standby" (VBool true).

Definition on_r2_exit_standby : M unit :=
  LOG_info "Received exit standby event message from remote" >>!
  LOG_debug "Set config.R2_IN_STANDBY to False" >>!
  config_set "standby" (VBool false).

Definition on_subscribe_entities (entity_ids : list string) : M unit :=
  emit logging.INFO
    [logging.Text "Received subscribe entities event for entity ids: ";
     logging.OfIds entity_ids] >>!
  config_set "standby" (VBool false).

Definition on_unsubscribe_entities (entity_ids : list string) : M unit :=
  emit logging.INFO
    [logging.Text "Unsubscribe entities event for entity ids: ";
     logging.OfIds entity_ids].

(** What [@api.listens_to(event)] wires up: the handler run for an event
    and its payload (the entity ids; the other events carry none and
    ignore it). *)
Definition listener (ev : ucapi.Events) (entity_ids : list string)
  : M unit :=
  match ev with
  | ucapi.CONNECT => on_r2_connect
  | ucapi.DISCONNECT => on_r2_disconnect
  | ucapi.ENTER_STANDBY => on_r2_enter_standby
  | ucapi.EXIT_STANDBY => on_r2_exit_standby
  | ucapi.SUBSCRIBE_ENTITIES => on_subscribe_entities entity_ids
  | ucapi.UNSUBSCRIBE_ENTITIES => on_unsubscribe_entities entity_ids
  end.

(** The standby flag, as the store holds it. *)
Definition standby (w : World) : option value :=
  config.get "standby" (setup w).

(** ** Vocabulary of the statements *)

(** The record a call of [_LOG.info] or [_LOG.debug] appends. *)
Definition record (l : logging.Level) (msg : list logging.Piece)
  : logging.LogRecord :=
  {| logging.level := l; logging.message := msg |}.

(** The record [mp_cmd_handler] logs before it dispatches. *)
Definition received (entity : ucapi.MediaPlayer) (cmd_id : string)
    (_params : option (gmap string value)) : logging.LogRecord :=
  match _params with
  | None =>
      record logging.INFO
        [logging.Text ("Received " +:+ cmd_id +:+ " command for "
                       +:+ ucapi.id entity)]
  | Some p =>
      record logging.INFO
        [logging.Text ("Received " +:+ cmd_id
                       +:+ " command with parameter ");
         logging.OfParams p;
         logging.Text (" for " +:+ ucapi.id entity)]
  end.

(** One turn of the loop: the five ways a turn of the loop of [startcheck] can go for [cmd] in
    the world [w], with the outcome and the world it ends in (up to the
    log). *)
Inductive turn (cmd : string) (w : World) : Outcome unit → World → Prop :=
| turn_no_id w' :
    config.get ("id-" +:+ cmd) (setup w) = None →
    state_of w' = state_of w →
    turn cmd w (Raised (LookupFailure ("id-" +:+ cmd))) w'
| turn_no_name idv w' :
    config.get ("id-" +:+ cmd) (setup w) = Some idv →
    config.get ("name-" +:+ cmd) (setup w) = None →
    state_of w' = state_of w →
    turn cmd w (Raised (LookupFailure ("name-" +:+ cmd))) w'
| turn_type_error idv nv w' :
    config.get ("id-" +:+ cmd) (setup w) = Some idv →
    config.get ("name-" +:+ cmd) (setup w) = Some nv →
    ucapi.contains idv (available_entities w) = false →
    (∀ i n, idv = VStr i → nv = VStr n → False) →
    state_of w' = state_of w →
    turn cmd w (Raised TypeError) w'
| turn_skip i nv e w' :
    config.get ("id-" +:+ cmd) (setup w) = Some (VStr i) →
    config.get ("name-" +:+ cmd) (setup w) = Some nv →
    available_entities w !! i = Some e →
    state_of w' = state_of w →
    turn cmd w (Returned tt) w'
| turn_add i n w' :
    config.get ("id-" +:+ cmd) (setup w) = Some (VStr i) →
    config.get ("name-" +:+ cmd) (setup w) = Some (VStr n) →
    available_entities w !! i = None →
    state_of w' =
      (setup w, <[i := mp_definition i n]> (available_entities w),
       configured_entities w, device_state w) →
    turn cmd w (Returned tt) w'.

(** The store has a string under ["id-"+cmd] and under ["name-"+cmd]. *)
Definition entry_complete (c : config.setup) (cmd : string) : bool :=
  match config.get ("id-" +:+ cmd) c, config.get ("name-" +:+ cmd) c with
  | Some (VStr _), Some (VStr _) => true
  | _, _ => false
  end.

(** Every configured command has its id and its name. *)
Definition config_complete (c : config.setup) : bool :=
  forallb (entry_complete c) (config.cmds c).

(** Every entity is stored under its own id, as [Entities.add] stores
    it. *)
Definition keyed (storage : ucapi.Entities) : Prop :=
  map_Forall (λ k e, ucapi.id e = k) storage.

(** How many entries of the registry hold an entity with the id [i]. *)
Definition occurrences (i : string) (storage : ucapi.Entities) : nat :=
  size (filter (λ p : string * ucapi.MediaPlayer, ucapi.id p.2 = i)
          storage).

(** The key whose lookup fails first for a command that lacks one. *)
Definition missing_key (c : config.setup) (cmd : string) : string :=
  match config.get ("id-" +:+ cmd) c with
  | None => "id-" +:+ cmd
  | Some _ => "name-" +:+ cmd
  end.

(** ** Worlds to run the driver in *)

(** The example of the specification: commands [a] and [b] with their
    ids and names, and nothing registered yet. *)
Definition example_world : World :=
  {| setup :=
       {| config.cmds := ["a"; "b"];
          config.conf :=
            <["id-a" := VStr "p1"]>
              (<["name-a" := VStr "Device 1"]>
                 (<["id-b" := VStr "p2"]>
                    (<["name-b" := VStr "Device 2"]>
                       {[ "standby" := VBool false ]}))) |};
     available_entities := ∅;
     configured_entities := ∅;
     device_state := ucapi.DISCONNECTED;
     log := [] |}.

(** A store in which command [b] has no id. *)
Definition world_without_id : World :=
  {| setup :=
       {| config.cmds := ["a"; "b"; "c"];
          config.conf :=
            <["id-a" := VStr "p1"]>
              (<["name-a" := VStr "Device 1"]>
                 (<["name-b" := VStr "Device 2"]>
                    (<["id-c" := VStr "p3"]>
                       {[ "name-c" := VStr "Device 3" ]}))) |};
     available_entities := ∅;
     configured_entities := ∅;
     device_state := ucapi.DISCONNECTED;
     log := [] |}.

(** A remote that went to standby: the flag is set, nothing else is. *)
Definition world_in_standby : World :=
  {| setup := {| config.cmds := [];
                 config.conf := {[ "standby" := VBool true ]} |};
     available_entities := ∅;
     configured_entities := ∅;
     device_state := ucapi.CONNECTED;
     log := [] |}.

(** The example of the specification once [p1] is registered. *)
Definition world_with_p1 : World :=
  {| setup := setup example_world;
     available_entities := {[ "p1" := mp_definition "p1" "Device 1" ]};
     configured_entities := ∅;
     device_state := ucapi.CONNECTED;
     log := [] |}.

(** The record [add_mp] logs when it is done. *)
Definition added (id name : string) : logging.LogRecord :=
  record logging.INFO
    [logging.Text ("Added media player entity with id " +:+ id
                   +:+ " and name " +:+ name)].

(** The record a turn of the loop of [startcheck] logs for an id that
    is registered. *)
Definition already (id : string) : logging.LogRecord :=
  record logging.DEBUG
    [logging.Text ("Entity with id " +:+ id
                   +:+ " is already in storage as available entity")].


(** The world [w] with [recs] appended to its log. *)
Definition logged (recs : list logging.LogRecord) (w : World) : World :=
  {| setup := setup w;
     available_entities := available_entities w;
     configured_entities := configured_entities w;
     device_state := device_state w;
     log := log w ++ recs |}.

(** The id of a command, when the store has a string for it. *)
Definition configured_id (c : config.setup) (cmd : string)
  : option string :=
  match config.get ("id-" +:+ cmd) c with
  | Some (VStr i) => Some i
  | _ => None
  end.

(** The command has a name in the store and its id is registered. *)
Definition entry_registered (w : World) (cmd : string) : bool :=
  match configured_id (setup w) cmd,
        config.get ("name-" +:+ cmd) (setup w) with
  | Some i, Some _ => bool_decide (is_Some (available_entities w !! i))
  | _, _ => false
  end.

(** What the handler of an event writes to the standby flag, if it
    writes it. *)
Definition standby_written (ev : ucapi.Events) : option bool :=
  match ev with
  | ucapi.ENTER_STANDBY => Some true
  | ucapi.EXIT_STANDBY | ucapi.SUBSCRIBE_ENTITIES => Some false
  | ucapi.CONNECT | ucapi.DISCONNECT | ucapi.UNSUBSCRIBE_ENTITIES => None
  end.

(** What the handler of an event sets the device state to, if it sets
    it. *)
Definition device_written (ev : ucapi.Events)
  : option ucapi.DeviceStates :=
  match ev with
  | ucapi.CONNECT => Some ucapi.CONNECTED
  | ucapi.DISCONNECT => Some ucapi.DISCONNECTED
  | _ => None
  end.

(** The handlers of the two events write the same thing: both the
    standby flag, or both the device state. *)
Definition same_target (ev1 ev2 : ucapi.Events) : bool :=
  (bool_decide (is_Some (standby_written ev1))
   && bool_decide (is_Some (standby_written ev2)))
  || (bool_decide (is_Some (device_written ev1))
      && bool_decide (is_Some (device_written ev2))).

(** The handlers of a sequence of events, run one after the other. *)
Definition handle_all (evs : list (ucapi.Events * list string)) : M unit :=
  for_each (λ p, listener p.1 p.2) evs.

(** The record a turn of the loop of [startcheck] logs before it
    registers an entity. *)
Definition adding (id name : string) : logging.LogRecord :=
  record logging.INFO
    [logging.Text ("Add entity with id " +:+ id +:+ " and name " +:+ name
                   +:+ " as available entity")].

(** The log the start-up contract asks for, command by command: for an
    id that is taken the note of the skip and nothing more, otherwise the
    two records of a registration, after which the id is taken. *)
Fixpoint startup_notes (c : config.setup) (taken : gset string)
    (l : list string) : list logging.LogRecord :=
  match l with
  | [] => []
  | cmd :: l' =>
      match config.get ("id-" +:+ cmd) c,
            config.get ("name-" +:+ cmd) c with
      | Some (VStr i), Some (VStr n) =>
          if decide (i ∈ taken)
          then already i :: startup_notes c taken l'
          else adding i n :: added i n
                 :: startup_notes c ({[i]} ∪ taken) l'
      | _, _ => []
      end
  end.


(** * Properties *)

(** ** The event handlers *)

(** C7. The connect handler sets the device state to [CONNECTED] and the
    disconnect handler sets it to [DISCONNECTED]; both return normally
    and leave the config store and both entity registries as they were
    (one log record is emitted). *)
Theorem connect_disconnect_set_device_state (w : World) :
  (eval on_r2_connect w = Returned tt ∧
   device_state (exec on_r2_connect w) = ucapi.CONNECTED ∧
   setup (exec on_r2_connect w) = setup w ∧
   available_entities (exec on_r2_connect w) = available_entities w ∧
   configured_entities (exec on_r2_connect w) = configured_entities w ∧
   log (exec on_r2_connect w) =
     log w ++ [record logging.INFO
                 [logging.Text "Received connect event message from remote"]])
  ∧
  (eval on_r2_disconnect w = Returned tt ∧
   device_state (exec on_r2_disconnect w) = ucapi.DISCONNECTED ∧
   setup (exec on_r2_disconnect w) = setup w ∧
   available_entities (exec on_r2_disconnect w) = available_entities w ∧
   configured_entities (exec on_r2_disconnect w) = configured_entities w ∧
   log (exec on_r2_disconnect w) =
     log w ++ [record logging.INFO
                 [logging.Text
                    "Received disconnect event message from remote"]]).
Proof. repeat split. Qed.

(** Reading back the key that [config.setup.set] wrote. *)
Lemma get_set_eq (key : string) (v : value) (c : config.setup) :
  config.get key (config.set key v c) = Some v.
Proof. unfold config.get, config.set; cbn. apply lookup_insert_eq. Qed.

Lemma set_set_eq (key : string) (v v' : value) (c : config.setup) :
  config.set key v (config.set key v' c) = config.set key v c.
Proof. unfold config.set; cbn. by rewrite insert_insert_eq. Qed.

(** C3. Whatever the flag was, it is [True] after the enter-standby
    handler and [False] after the exit-standby handler and after the
    subscribe-entities handler. *)
Theorem standby_handlers_set_flag (w : World) (entity_ids : list string) :
  standby (exec on_r2_enter_standby w) = Some (VBool true) ∧
  standby (exec on_r2_exit_standby w) = Some (VBool false) ∧
  standby (exec (on_subscribe_entities entity_ids) w) = Some (VBool false).
Proof. repeat split; apply get_set_eq. Qed.

(** C4, as amended. After the handler of an event the flag is [True] for
    enter-standby, [False] for exit-standby and for subscribe-entities,
    and what it was before for the three other events. *)
Theorem standby_after_event (ev : ucapi.Events) (entity_ids : list string)
    (w : World) :
  standby (exec (listener ev entity_ids) w) =
    match ev with
    | ucapi.ENTER_STANDBY => Some (VBool true)
    | ucapi.EXIT_STANDBY | ucapi.SUBSCRIBE_ENTITIES => Some (VBool false)
    | ucapi.CONNECT | ucapi.DISCONNECT | ucapi.UNSUBSCRIBE_ENTITIES =>
        standby w
    end.
Proof. destruct ev; first [ apply get_set_eq | reflexivity ]. Qed.

(** C4, as stated, fails: from a world whose flag is [True], the
    subscribe-entities handler leaves it [False], not [True]. *)
Lemma subscribe_clears_standby :
  standby world_in_standby = Some (VBool true) ∧
  standby (exec (on_subscribe_entities ["p1"]) world_in_standby)
    = Some (VBool false) ∧
  standby (exec (on_subscribe_entities ["p1"]) world_in_standby)
    ≠ Some (VBool true).
Proof.
  split; [ reflexivity | ].
  assert (standby (exec (on_subscribe_entities ["p1"]) world_in_standby)
          = Some (VBool false)) as H by apply get_set_eq.
  split; [ exact H | rewrite H; discriminate ].
Qed.

(** C6. The unsubscribe-entities handler returns normally, leaves the
    config store, both entity registries and the device state as they
    were, and appends one record to the log. *)
Theorem unsubscribe_only_logs (entity_ids : list string) (w : World) :
  eval (on_unsubscribe_entities entity_ids) w = Returned tt ∧
  state_of (exec (on_unsubscribe_entities entity_ids) w) = state_of w ∧
  log (exec (on_unsubscribe_entities entity_ids) w) =
    log w ++ [record logging.INFO
                [logging.Text "Unsubscribe entities event for entity ids: ";
                 logging.OfIds entity_ids]].
Proof. repeat split. Qed.

(** C9. Each of the six event handlers returns normally, and run a second
    time it leaves the config store, the registries and the device state
    as the first run left them. *)
Theorem listeners_idempotent (ev : ucapi.Events) (entity_ids : list string)
    (w : World) :
  eval (listener ev entity_ids) w = Returned tt ∧
  state_of (exec (listener ev entity_ids) (exec (listener ev entity_ids) w))
    = state_of (exec (listener ev entity_ids) w).
Proof.
  split; [ by destruct ev | ].
  destruct ev; cbn; unfold state_of; cbn;
    rewrite ?set_set_eq; reflexivity.
Qed.

(** C10. The worlds the subscribe and unsubscribe handlers end in agree,
    for any two lists of entity ids, on everything but the log; neither
    handler touches a registry. *)
Theorem subscription_handlers_ignore_ids (ids1 ids2 : list string)
    (w : World) :
  (eval (on_subscribe_entities ids1) w = eval (on_subscribe_entities ids2) w ∧
   state_of (exec (on_subscribe_entities ids1) w)
     = state_of (exec (on_subscribe_entities ids2) w) ∧
   available_entities (exec (on_subscribe_entities ids1) w)
     = available_entities w ∧
   configured_entities (exec (on_subscribe_entities ids1) w)
     = configured_entities w)
  ∧
  (eval (on_unsubscribe_entities ids1) w
     = eval (on_unsubscribe_entities ids2) w ∧
   state_of (exec (on_unsubscribe_entities ids1) w)
     = state_of (exec (on_unsubscribe_entities ids2) w) ∧
   available_entities (exec (on_unsubscribe_entities ids1) w)
     = available_entities w ∧
   configured_entities (exec (on_unsubscribe_entities ids1) w)
     = configured_entities w).
Proof. repeat split. Qed.

(** ** The command handler relay *)

(** C2. Whatever the dispatcher is, [mp_cmd_handler] is the dispatcher
    called once, on the entity's id, the command id and the parameters as
    received, in the world that differs from the caller's by one log
    record: it yields the dispatcher's status code, or raises what the
    dispatcher raises, and ends in the dispatcher's world. *)
Theorem mp_cmd_handler_relays
    (mp_cmd_assigner :
       string → string → option (gmap string value) → M ucapi.StatusCodes)
    (entity : ucapi.MediaPlayer) (cmd_id : string)
    (_params : option (gmap string value)) (w : World) :
  mp_cmd_handler mp_cmd_assigner entity cmd_id _params w =
    mp_cmd_assigner (ucapi.id entity) cmd_id _params
      {| setup := setup w;
         available_entities := available_entities w;
         configured_entities := configured_entities w;
         device_state := device_state w;
         log := log w ++ [received entity cmd_id _params] |}.
Proof. destruct _params; reflexivity. Qed.

(** ** Start-up registration *)

Lemma contains_str (i : string) (storage : ucapi.Entities) :
  ucapi.contains (VStr i) storage = true ↔ is_Some (storage !! i).
Proof. cbn. apply bool_decide_eq_true. Qed.

Lemma startcheck_body_turn (cmd : string) (w : World) :
  turn cmd w (eval (startcheck_body cmd) w) (exec (startcheck_body cmd) w).
Proof.
  unfold eval, exec, startcheck_body, bind, config_get.
  destruct (config.get ("id-" +:+ cmd) (setup w)) as [idv|] eqn:Hid;
    [ | by apply turn_no_id ].
  destruct (config.get ("name-" +:+ cmd) (setup w)) as [nv|] eqn:Hname;
    [ | by eapply turn_no_name ].
  unfold available_contains.
  destruct (ucapi.contains idv (available_entities w)) eqn:Hc.
  - destruct idv as [ | | |i]; try discriminate Hc.
    apply contains_str in Hc as [e He].
    cbn. by eapply turn_skip.
  - destruct idv as [ | | |i];
      try (cbn; eapply turn_type_error; eauto; congruence).
    destruct nv as [ | | |n];
      try (cbn; eapply turn_type_error; eauto; congruence).
    assert (available_entities w !! i = None) as Hnone.
    { destruct (available_entities w !! i) eqn:E; [ | done ].
      assert (ucapi.contains (VStr i) (available_entities w) = true)
        by (apply contains_str; eauto).
      congruence. }
    cbn. eapply turn_add; eauto.
    unfold state_of, ucapi.add; cbn. by rewrite Hnone.
Qed.

(** *** The loop *)

Lemma for_each_returned {A} (body : A → M unit) (x : A) (l : list A)
    (w : World) :
  eval (body x) w = Returned tt →
  for_each body (x :: l) w = for_each body l (exec (body x) w).
Proof.
  unfold eval, exec; cbn; unfold bind.
  destruct (body x w) as [[[]|e] w1]; cbn; [ done | discriminate ].
Qed.

Lemma for_each_raised {A} (body : A → M unit) (x : A) (l : list A)
    (w : World) (e : Exn) :
  eval (body x) w = Raised e →
  for_each body (x :: l) w = (Raised e, exec (body x) w).
Proof.
  unfold eval, exec; cbn; unfold bind.
  destruct (body x w) as [[[]|e'] w1]; cbn; [ discriminate | congruence ].
Qed.

Lemma exec_for_each_returned {A} (body : A → M unit) (x : A) (l : list A)
    (w : World) :
  eval (body x) w = Returned tt →
  exec (for_each body (x :: l)) w = exec (for_each body l) (exec (body x) w).
Proof.
  intros H.
  change (exec (for_each body (x :: l)) w)
    with (for_each body (x :: l) w).2.
  by rewrite (for_each_returned _ _ _ _ H).
Qed.

Lemma exec_for_each_raised {A} (body : A → M unit) (x : A) (l : list A)
    (w : World) (e : Exn) :
  eval (body x) w = Raised e →
  exec (for_each body (x :: l)) w = exec (body x) w.
Proof.
  intros H.
  change (exec (for_each body (x :: l)) w)
    with (for_each body (x :: l) w).2.
  by rewrite (for_each_raised _ _ _ _ _ H).
Qed.

Lemma startcheck_unfold (w : World) :
  startcheck w = for_each startcheck_body (config.cmds (setup w)) w.
Proof. reflexivity. Qed.

Lemma state_of_inv (w' : World) s a c d :
  state_of w' = (s, a, c, d) →
  setup w' = s ∧ available_entities w' = a ∧
  configured_entities w' = c ∧ device_state w' = d.
Proof. unfold state_of. intros [= -> -> -> ->]. done. Qed.

(** Splits on how the turn of the loop for [x] goes in [w]: the outcome
    [Ho], the lookups, and the world the turn ends in. *)
Ltac first_turn x w :=
  let Ht := fresh "Ht" in
  pose proof (startcheck_body_turn x w) as Ht;
  inversion Ht as [ w' Hid Hpost Ho | idv w' Hid Hname Hpost Ho
                  | idv nv w' Hid Hname Hc Hty Hpost Ho
                  | id_x nv old w' Hid Hname Hin Hpost Ho
                  | id_x name_x w' Hid Hname Hout Hpost Ho ];
  symmetry in Ho;
  apply state_of_inv in Hpost as (Hsetup & Havail & Hconf & Hdev);
  clear Ht.

(** The loop changes neither the config store, nor the configured
    entities, nor the device state, however it ends. *)
Lemma loop_frame (l : list string) (w : World) :
  setup (exec (for_each startcheck_body l) w) = setup w ∧
  configured_entities (exec (for_each startcheck_body l) w)
    = configured_entities w ∧
  device_state (exec (for_each startcheck_body l) w) = device_state w.
Proof.
  revert w. induction l as [|x l IH]; intros w; [ done | ].
  first_turn x w;
    rewrite ?(exec_for_each_raised _ _ _ _ _ Ho),
            ?(exec_for_each_returned _ _ _ _ Ho); try done.
  all: destruct (IH (exec (startcheck_body x) w)) as (-> & -> & ->); done.
Qed.

(** An entity that is registered stays registered, as it is. *)
Lemma loop_keeps (l : list string) (w : World) (i : string)
    (e : ucapi.MediaPlayer) :
  available_entities w !! i = Some e →
  available_entities (exec (for_each startcheck_body l) w) !! i = Some e.
Proof.
  revert w. induction l as [|x l IH]; intros w He; [ done | ].
  first_turn x w;
    rewrite ?(exec_for_each_raised _ _ _ _ _ Ho),
            ?(exec_for_each_returned _ _ _ _ Ho); try congruence.
  - apply IH. congruence.
  - apply IH. rewrite Havail.
    rewrite lookup_insert_ne; [ done | ]. congruence.
Qed.

Lemma eval_for_each_returned {A} (body : A → M unit) (x : A) (l : list A)
    (w : World) :
  eval (body x) w = Returned tt →
  eval (for_each body (x :: l)) w = eval (for_each body l) (exec (body x) w).
Proof.
  intros H.
  change (eval (for_each body (x :: l)) w)
    with (for_each body (x :: l) w).1.
  by rewrite (for_each_returned _ _ _ _ H).
Qed.

Lemma eval_for_each_raised {A} (body : A → M unit) (x : A) (l : list A)
    (w : World) (e : Exn) :
  eval (body x) w = Raised e →
  eval (for_each body (x :: l)) w = Raised e.
Proof.
  intros H.
  change (eval (for_each body (x :: l)) w)
    with (for_each body (x :: l) w).1.
  by rewrite (for_each_raised _ _ _ _ _ H).
Qed.

(** A turn for a command whose id is registered only logs. *)
Lemma body_skips (cmd : string) (w : World) (i : string) (nv : value)
    (e : ucapi.MediaPlayer) :
  config.get ("id-" +:+ cmd) (setup w) = Some (VStr i) →
  config.get ("name-" +:+ cmd) (setup w) = Some nv →
  available_entities w !! i = Some e →
  eval (startcheck_body cmd) w = Returned tt ∧
  state_of (exec (startcheck_body cmd) w) = state_of w.
Proof.
  intros Hid Hname He.
  assert (ucapi.contains (VStr i) (available_entities w) = true) as Hc
    by (apply contains_str; eauto).
  unfold eval, exec, startcheck_body, bind, config_get.
  rewrite Hid; cbv beta iota. rewrite Hname; cbv beta iota.
  unfold available_contains. rewrite Hc. done.
Qed.

(** How a turn ends depends on the config store and on the available
    entities only. *)
Lemma body_outcome_congr (cmd : string) (w w2 : World) :
  setup w2 = setup w →
  available_entities w2 = available_entities w →
  eval (startcheck_body cmd) w2 = eval (startcheck_body cmd) w.
Proof.
  intros Hs Ha.
  unfold eval, startcheck_body, bind, config_get.
  rewrite Hs.
  destruct (config.get ("id-" +:+ cmd) (setup w)) as [idv|];
    cbv beta iota; [ | done ].
  rewrite Hs.
  destruct (config.get ("name-" +:+ cmd) (setup w)) as [nv|];
    cbv beta iota; [ | done ].
  unfold available_contains; cbv beta iota. rewrite Ha.
  destruct (ucapi.contains idv (available_entities w)).
  - by destruct idv.
  - destruct idv; try done. by destruct nv.
Qed.

(** No turn changes the config store. *)
Lemma body_setup (cmd : string) (w : World) :
  setup (exec (startcheck_body cmd) w) = setup w.
Proof. first_turn cmd w; done. Qed.

(** A turn that raises has changed nothing but the log. *)
Lemma body_raised_state (cmd : string) (w : World) (e : Exn) :
  eval (startcheck_body cmd) w = Raised e →
  state_of (exec (startcheck_body cmd) w) = state_of w.
Proof.
  intros He. first_turn cmd w; try congruence.
  all: unfold state_of; congruence.
Qed.

(** Run again from a world with the same config store and the entities
    the loop left, the loop ends the same way and registers nothing. *)
Lemma loop_rerun (l : list string) (w w2 : World) :
  setup w2 = setup w →
  available_entities w2
    = available_entities (exec (for_each startcheck_body l) w) →
  eval (for_each startcheck_body l) w2 = eval (for_each startcheck_body l) w ∧
  available_entities (exec (for_each startcheck_body l) w2)
    = available_entities w2.
Proof.
  revert w w2. induction l as [|x l IH]; intros w w2 Hs Ha; [ done | ].
  assert (∀ e, eval (startcheck_body x) w = Raised e →
            eval (for_each startcheck_body (x :: l)) w2
              = eval (for_each startcheck_body (x :: l)) w ∧
            available_entities (exec (for_each startcheck_body (x :: l)) w2)
              = available_entities w2) as Hraised.
  { intros e He.
    rewrite (exec_for_each_raised _ _ _ _ _ He) in Ha.
    pose proof (body_raised_state _ _ _ He) as Hst.
    apply state_of_inv in Hst as (_ & Hav & _).
    assert (eval (startcheck_body x) w2 = Raised e) as He2.
    { rewrite <- He. apply body_outcome_congr; congruence. }
    rewrite (eval_for_each_raised _ _ _ _ _ He),
            (eval_for_each_raised _ _ _ _ _ He2),
            (exec_for_each_raised _ _ _ _ _ He2).
    pose proof (body_raised_state _ _ _ He2) as Hst2.
    apply state_of_inv in Hst2 as (_ & Hav2 & _). done. }
  assert (∀ i nv e,
            eval (startcheck_body x) w = Returned tt →
            config.get ("id-" +:+ x) (setup w) = Some (VStr i) →
            config.get ("name-" +:+ x) (setup w) = Some nv →
            available_entities (exec (startcheck_body x) w) !! i = Some e →
            eval (for_each startcheck_body (x :: l)) w2
              = eval (for_each startcheck_body (x :: l)) w ∧
            available_entities (exec (for_each startcheck_body (x :: l)) w2)
              = available_entities w2) as Hreturned.
  { intros i nv e He Hid Hname Hin.
    rewrite (exec_for_each_returned _ _ _ _ He) in Ha.
    assert (available_entities w2 !! i = Some e) as Hin2.
    { rewrite Ha. by apply loop_keeps. }
    rewrite <- Hs in Hid, Hname.
    destruct (body_skips _ _ _ _ _ Hid Hname Hin2) as [He2 Hst2].
    apply state_of_inv in Hst2 as (Hs2 & Hav2 & _).
    rewrite (eval_for_each_returned _ _ _ _ He),
            (eval_for_each_returned _ _ _ _ He2),
            (exec_for_each_returned _ _ _ _ He2).
    destruct (IH (exec (startcheck_body x) w) (exec (startcheck_body x) w2))
      as [IHe IHa].
    - by rewrite Hs2, Hs, body_setup.
    - congruence.
    - split; [ exact IHe | congruence ]. }
  first_turn x w; eauto.
  - apply (Hreturned id_x nv old); try done. by rewrite Havail.
  - apply (Hreturned id_x (VStr name_x) (mp_definition id_x name_x));
      try done.
    rewrite Havail. apply lookup_insert_eq.
Qed.

(** C5. A second run of [startcheck] ends the way the first did (returns,
    or raises the same exception) and leaves the available entities, and
    the rest of the state, as the first run left them. *)
Theorem startcheck_twice (w : World) :
  eval startcheck (exec startcheck w) = eval startcheck w ∧
  available_entities (exec startcheck (exec startcheck w))
    = available_entities (exec startcheck w) ∧
  state_of (exec startcheck (exec startcheck w))
    = state_of (exec startcheck w).
Proof.
  set (l := config.cmds (setup w)).
  set (w1 := exec startcheck w).
  assert (w1 = exec (for_each startcheck_body l) w) as Hw1 by reflexivity.
  assert (setup w1 = setup w) as Hs by (rewrite Hw1; apply loop_frame).
  assert (exec startcheck w1 = exec (for_each startcheck_body l) w1) as Hx.
  { unfold exec at 1. rewrite startcheck_unfold, Hs. reflexivity. }
  assert (eval startcheck w1 = eval (for_each startcheck_body l) w1) as Hv.
  { unfold eval at 1. rewrite startcheck_unfold, Hs. reflexivity. }
  destruct (loop_rerun l w w1 Hs) as [He Ha]; [ by rewrite Hw1 | ].
  rewrite Hx, Hv.
  destruct (loop_frame l w1) as (Hs' & Hc' & Hd').
  repeat split; [ exact He | exact Ha | ].
  unfold state_of. by rewrite Hs', Ha, Hc', Hd'.
Qed.

Lemma entry_complete_inv (c : config.setup) (cmd : string) :
  entry_complete c cmd = true →
  ∃ i n, config.get ("id-" +:+ cmd) c = Some (VStr i) ∧
         config.get ("name-" +:+ cmd) c = Some (VStr n).
Proof.
  unfold entry_complete.
  destruct (config.get ("id-" +:+ cmd) c) as [[ | | |i]|]; try done.
  destruct (config.get ("name-" +:+ cmd) c) as [[ | | |n]|]; try done.
  eauto.
Qed.

(** Over commands that all have their id and name, the loop returns. *)
Lemma loop_returns (l : list string) (w : World) :
  forallb (entry_complete (setup w)) l = true →
  eval (for_each startcheck_body l) w = Returned tt.
Proof.
  revert w. induction l as [|x l IH]; intros w Hall; [ done | ].
  cbn [forallb] in Hall. apply andb_true_iff in Hall as [Hx Hl].
  apply entry_complete_inv in Hx as (i & n & Hi & Hn).
  first_turn x w; try congruence.
  - exfalso. rewrite Hi in Hid. rewrite Hn in Hname.
    injection Hid as <-. injection Hname as <-. eauto.
  - rewrite (eval_for_each_returned _ _ _ _ Ho).
    apply IH. by rewrite Hsetup.
  - rewrite (eval_for_each_returned _ _ _ _ Ho).
    apply IH. by rewrite Hsetup.
Qed.

(** ... and the id of each of them is registered when it ends. *)
Lemma loop_registers (l : list string) (w : World) (cmd i : string) :
  forallb (entry_complete (setup w)) l = true →
  cmd ∈ l →
  config.get ("id-" +:+ cmd) (setup w) = Some (VStr i) →
  is_Some (available_entities (exec (for_each startcheck_body l) w) !! i).
Proof.
  revert w. induction l as [|x l IH]; intros w Hall Hin Hi.
  { by apply elem_of_nil in Hin. }
  pose proof (loop_returns _ _ Hall) as Hret.
  cbn [forallb] in Hall. apply andb_true_iff in Hall as [Hx Hl].
  assert (eval (startcheck_body x) w = Returned tt) as Hbody.
  { destruct (eval (startcheck_body x) w) as [[]|e] eqn:E; [ done | ].
    rewrite (eval_for_each_raised _ _ _ _ _ E) in Hret. discriminate. }
  rewrite (exec_for_each_returned _ _ _ _ Hbody).
  apply elem_of_cons in Hin as [->|Hin].
  - first_turn x w; try congruence.
    + exists old. apply loop_keeps. rewrite Havail.
      rewrite Hi in Hid. by injection Hid as ->.
    + exists (mp_definition id_x name_x). apply loop_keeps. rewrite Havail.
      rewrite Hi in Hid. injection Hid as ->. apply lookup_insert_eq.
  - apply IH; [ | done | ]; by rewrite body_setup.
Qed.

(** An entity the loop registered was built from the id and the name of
    a configured command: the first in the list with that id. *)
Lemma loop_new_entries (l : list string) (w : World) (i : string)
    (e : ucapi.MediaPlayer) :
  available_entities w !! i = None →
  available_entities (exec (for_each startcheck_body l) w) !! i = Some e →
  ∃ pre cmd post n,
    l = pre ++ cmd :: post ∧
    config.get ("id-" +:+ cmd) (setup w) = Some (VStr i) ∧
    config.get ("name-" +:+ cmd) (setup w) = Some (VStr n) ∧
    e = mp_definition i n ∧
    ∀ c, c ∈ pre → config.get ("id-" +:+ c) (setup w) ≠ Some (VStr i).
Proof.
  revert w. induction l as [|x l IH]; intros w Hnone Hsome.
  { cbn in Hsome. congruence. }
  first_turn x w;
    rewrite ?(exec_for_each_raised _ _ _ _ _ Ho),
            ?(exec_for_each_returned _ _ _ _ Ho) in Hsome;
    try congruence.
  - destruct (IH (exec (startcheck_body x) w))
      as (pre & cmd & post & n & -> & Hi & Hn & -> & Hpre);
      [ congruence | done | ].
    rewrite Hsetup in Hi, Hn.
    exists (x :: pre), cmd, post, n. repeat split; try done.
    intros c [->|Hc]%elem_of_cons.
    + rewrite Hid. intros [= ->]. congruence.
    + rewrite <- Hsetup. by apply Hpre.
  - destruct (decide (id_x = i)) as [->|Hne].
    + exists [], x, l, name_x. repeat split; try done.
      * assert (available_entities
                  (exec (for_each startcheck_body l)
                     (exec (startcheck_body x) w)) !! i
                = Some (mp_definition i name_x)) as Hkept.
        { apply loop_keeps. rewrite Havail. apply lookup_insert_eq. }
        congruence.
      * intros c Hc. by apply elem_of_nil in Hc.
    + destruct (IH (exec (startcheck_body x) w))
        as (pre & cmd & post & n & -> & Hi & Hn & -> & Hpre); [ | done | ].
      { rewrite Havail. by rewrite lookup_insert_ne. }
      rewrite Hsetup in Hi, Hn.
      exists (x :: pre), cmd, post, n. repeat split; try done.
      intros c [->|Hc]%elem_of_cons.
      * rewrite Hid. intros [= ->]. congruence.
      * rewrite <- Hsetup. by apply Hpre.
Qed.

(** The loop keeps every entity under its own id. *)
Lemma loop_keyed (l : list string) (w : World) :
  keyed (available_entities w) →
  keyed (available_entities (exec (for_each startcheck_body l) w)).
Proof.
  revert w. induction l as [|x l IH]; intros w Hk; [ done | ].
  first_turn x w;
    rewrite ?(exec_for_each_raised _ _ _ _ _ Ho),
            ?(exec_for_each_returned _ _ _ _ Ho);
    try (by rewrite Havail).
  - apply IH. by rewrite Havail.
  - apply IH. rewrite Havail. by apply map_Forall_insert_2.
Qed.

(** *** A missing key *)



(** When the commands before the first one that lacks a key are all
    complete, the loop raises the lookup failure of that key, after
    having registered the commands before it and none after it. *)
Lemma loop_first_missing (pre : list string) (cmd : string)
    (post : list string) (w : World) :
  forallb (entry_complete (setup w)) pre = true →
  config.get ("id-" +:+ cmd) (setup w) = None ∨
  config.get ("name-" +:+ cmd) (setup w) = None →
  eval (for_each startcheck_body (pre ++ cmd :: post)) w
    = Raised (LookupFailure (missing_key (setup w) cmd)) ∧
  available_entities (exec (for_each startcheck_body (pre ++ cmd :: post)) w)
    = available_entities (exec (for_each startcheck_body pre) w).
Proof.
  revert w. induction pre as [|x pre IH]; intros w Hall Hmiss.
  - cbn [app]. unfold missing_key.
    first_turn cmd w; try (destruct Hmiss; congruence).
    + rewrite (eval_for_each_raised _ _ _ _ _ Ho),
              (exec_for_each_raised _ _ _ _ _ Ho), Hid. done.
    + rewrite (eval_for_each_raised _ _ _ _ _ Ho),
              (exec_for_each_raised _ _ _ _ _ Ho), Hid. done.
  - pose proof (loop_returns _ _ Hall) as Hret.
    cbn [forallb] in Hall. apply andb_true_iff in Hall as [Hx Hl].
    assert (eval (startcheck_body x) w = Returned tt) as Hbody.
    { destruct (eval (startcheck_body x) w) as [[]|e] eqn:E; [ done | ].
      rewrite (eval_for_each_raised _ _ _ _ _ E) in Hret. discriminate. }
    rewrite <- app_comm_cons.
    rewrite (eval_for_each_returned _ _ _ _ Hbody),
            !(exec_for_each_returned _ _ _ _ Hbody).
    rewrite <- (body_setup x w).
    apply IH; by rewrite body_setup.
Qed.

(** Run on a store without an id for [b]: [a] is registered, [c] is never
    reached. *)
Example startcheck_without_id :
  eval startcheck world_without_id = Raised (LookupFailure "id-b") ∧
  available_entities (exec startcheck world_without_id) !! "p1"
    = Some (mp_definition "p1" "Device 1") ∧
  available_entities (exec startcheck world_without_id) !! "p3" = None ∧
  size (available_entities (exec startcheck world_without_id)) = 1.
Proof. repeat split; vm_compute; reflexivity. Qed.


(** * Further properties of the driver *)

(** ** [add_mp] *)

(** What a call of [add_mp] does, in one equation. *)
Lemma add_mp_run (id name : string) (w : World) :
  add_mp id name w =
    (Returned tt,
     {| setup := setup w;
        available_entities :=
          match available_entities w !! id with
          | Some _ => available_entities w
          | None => <[id := mp_definition id name]> (available_entities w)
          end;
        configured_entities := configured_entities w;
        device_state := device_state w;
        log := log w ++ [added id name] |}).
Proof.
  unfold add_mp, bind, available_add, ucapi.add, LOG_info, emit; cbn.
  destruct (available_entities w !! id); reflexivity.
Qed.

(** X1. [add_mp] returns and leaves [id] registered: under it is the
    entity that was there before, if any, and the new definition
    otherwise. No other id, and nothing but the available entities and
    the log, is touched. *)
Theorem add_mp_registers (id name : string) (w : World) :
  eval (add_mp id name) w = Returned tt ∧
  available_entities (exec (add_mp id name) w) !! id
    = Some (default (mp_definition id name) (available_entities w !! id)) ∧
  (∀ j, j ≠ id →
     available_entities (exec (add_mp id name) w) !! j
       = available_entities w !! j) ∧
  setup (exec (add_mp id name) w) = setup w ∧
  configured_entities (exec (add_mp id name) w) = configured_entities w ∧
  device_state (exec (add_mp id name) w) = device_state w.
Proof.
  unfold eval, exec. rewrite add_mp_run. cbn.
  repeat split.
  - destruct (available_entities w !! id) eqn:E; cbn.
    + exact E.
    + apply lookup_insert_eq.
  - intros j Hj. destruct (available_entities w !! id); [ done | ].
    by apply lookup_insert_ne.
Qed.

(** X2. When the id is taken, [add_mp] changes nothing, and yet returns
    normally and logs that the entity was added: the refusal of the
    registry is not looked at. *)
Theorem add_mp_taken_still_logs (id name : string) (w : World)
    (e : ucapi.MediaPlayer) :
  available_entities w !! id = Some e →
  eval (add_mp id name) w = Returned tt ∧
  state_of (exec (add_mp id name) w) = state_of w ∧
  log (exec (add_mp id name) w) = log w ++ [added id name].
Proof.
  intros He. unfold eval, exec, state_of. rewrite add_mp_run. cbn.
  by rewrite He.
Qed.

(** In [world_with_p1] the id [p1] is taken. *)
Lemma add_mp_taken_still_logs_witness :
  state_of (exec (add_mp "p1" "Another name") world_with_p1)
    = state_of world_with_p1 ∧
  log (exec (add_mp "p1" "Another name") world_with_p1)
    = [added "p1" "Another name"].
Proof.
  destruct (add_mp_taken_still_logs "p1" "Another name" world_with_p1
              (mp_definition "p1" "Device 1")) as (_ & Hs & Hl).
  - reflexivity.
  - split; [ exact Hs | exact Hl ].
Defined.

(** X3. Of two calls of [add_mp] for one id the first wins: the second,
    whatever its name, leaves everything but the log as the first left
    it. *)
Theorem add_mp_first_wins (id name1 name2 : string) (w : World) :
  state_of (exec (add_mp id name2) (exec (add_mp id name1) w))
    = state_of (exec (add_mp id name1) w).
Proof.
  unfold exec, state_of. rewrite !add_mp_run. cbn.
  destruct (available_entities w !! id) eqn:E.
  - by rewrite E.
  - by rewrite lookup_insert_eq.
Qed.

(** X4. Calls of [add_mp] for two different ids can be swapped as far as
    lookups go: in either order every id is registered with the same
    entity, and the config store, the configured entities and the device
    state end the same. (The order in which the registry would list
    the two is outside the model.) *)
Theorem add_mp_commute (id1 name1 id2 name2 : string) (w : World) :
  id1 ≠ id2 →
  (∀ j,
     available_entities
       (exec (add_mp id2 name2) (exec (add_mp id1 name1) w)) !! j
     = available_entities
         (exec (add_mp id1 name1) (exec (add_mp id2 name2) w)) !! j) ∧
  setup (exec (add_mp id2 name2) (exec (add_mp id1 name1) w))
    = setup (exec (add_mp id1 name1) (exec (add_mp id2 name2) w)) ∧
  configured_entities (exec (add_mp id2 name2) (exec (add_mp id1 name1) w))
    = configured_entities
        (exec (add_mp id1 name1) (exec (add_mp id2 name2) w)) ∧
  device_state (exec (add_mp id2 name2) (exec (add_mp id1 name1) w))
    = device_state (exec (add_mp id1 name1) (exec (add_mp id2 name2) w)).
Proof.
  intros Hne. unfold exec. rewrite !add_mp_run. cbn.
  repeat split. intros j. f_equal.
  destruct (available_entities w !! id1) eqn:E1;
    destruct (available_entities w !! id2) eqn:E2;
    rewrite ?E1, ?E2, ?lookup_insert_ne, ?E1, ?E2 by congruence;
    try done.
  by apply insert_insert_ne.
Qed.

(** [p1] and [p2] are different ids. *)
Lemma add_mp_commute_witness :
  available_entities
    (exec (add_mp "p2" "Device 2")
       (exec (add_mp "p1" "Device 1") example_world)) !! "p1"
  = available_entities
      (exec (add_mp "p1" "Device 1")
         (exec (add_mp "p2" "Device 2") example_world)) !! "p1"
  ∧
  available_entities
    (exec (add_mp "p2" "Device 2")
       (exec (add_mp "p1" "Device 1") example_world)) !! "p2"
  = available_entities
      (exec (add_mp "p1" "Device 1")
         (exec (add_mp "p2" "Device 2") example_world)) !! "p2".
Proof.
  destruct (add_mp_commute "p1" "Device 1" "p2" "Device 2" example_world)
    as [Hlook _]; [ done | ].
  split; apply Hlook.
Defined.

(** ** [startcheck], however it ends *)

(** A turn of the loop only appends to the log. *)
Lemma body_log_grows (cmd : string) (w : World) :
  log w `prefix_of` log (exec (startcheck_body cmd) w).
Proof.
  unfold exec, startcheck_body, bind, config_get.
  destruct (config.get ("id-" +:+ cmd) (setup w)) as [idv|];
    cbv beta iota; [ | done ].
  destruct (config.get ("name-" +:+ cmd) (setup w)) as [nv|];
    cbv beta iota; [ | done ].
  unfold available_contains; cbv beta iota.
  destruct (ucapi.contains idv (available_entities w)).
  - destruct idv; cbn; try done. by eexists.
  - destruct idv; cbn; try done.
    destruct nv; cbn; try done.
    unfold ucapi.add; cbn.
    destruct (available_entities w !! s); cbn;
      rewrite <- app_assoc; by eexists.
Qed.

Lemma loop_log_grows (l : list string) (w : World) :
  log w `prefix_of` log (exec (for_each startcheck_body l) w).
Proof.
  revert w. induction l as [|x l IH]; intros w; [ done | ].
  destruct (eval (startcheck_body x) w) as [[]|e] eqn:E.
  - rewrite (exec_for_each_returned _ _ _ _ E).
    etrans; [ apply (body_log_grows x) | apply IH ].
  - rewrite (exec_for_each_raised _ _ _ _ _ E). apply body_log_grows.
Qed.

(** X5. Whether [startcheck] returns or raises, it has changed neither
    the config store, nor the configured entities, nor the device state,
    and the log it leaves starts with the log it found. *)
Theorem startcheck_frame (w : World) :
  setup (exec startcheck w) = setup w ∧
  configured_entities (exec startcheck w) = configured_entities w ∧
  device_state (exec startcheck w) = device_state w ∧
  log w `prefix_of` log (exec startcheck w).
Proof.
  change (exec startcheck w)
    with (exec (for_each startcheck_body (config.cmds (setup w))) w).
  destruct (loop_frame (config.cmds (setup w)) w) as (Hs & Hc & Hd).
  repeat split; try done. apply loop_log_grows.
Qed.

(** X6. Whether [startcheck] returns or raises, an entity that was
    registered is still registered, unchanged, and an entity that is new
    is the definition built from the id and the name of the first
    configured command with that id. *)
Theorem startcheck_keeps_and_builds (w : World) :
  (∀ i e, available_entities w !! i = Some e →
     available_entities (exec startcheck w) !! i = Some e) ∧
  (∀ i e, available_entities w !! i = None →
     available_entities (exec startcheck w) !! i = Some e →
     ∃ pre cmd post n,
       config.cmds (setup w) = pre ++ cmd :: post ∧
       config.get ("id-" +:+ cmd) (setup w) = Some (VStr i) ∧
       config.get ("name-" +:+ cmd) (setup w) = Some (VStr n) ∧
       e = mp_definition i n ∧
       ∀ c, c ∈ pre → config.get ("id-" +:+ c) (setup w) ≠ Some (VStr i)).
Proof.
  change (exec startcheck w)
    with (exec (for_each startcheck_body (config.cmds (setup w))) w).
  split; intros i e.
  - apply loop_keeps.
  - apply loop_new_entries.
Qed.

(** X7. [startcheck] is not all-or-nothing. When the first configured
    command that lacks a key comes after commands that are complete, it
    raises the lookup failure of that key (the id's, or else the name's),
    the commands before are registered, and no command after it is: what
    is new in the registry has the id of a command before. *)
Theorem startcheck_partial_registration (w : World) (pre : list string)
    (cmd : string) (post : list string) :
  config.cmds (setup w) = pre ++ cmd :: post →
  forallb (entry_complete (setup w)) pre = true →
  config.get ("id-" +:+ cmd) (setup w) = None ∨
  config.get ("name-" +:+ cmd) (setup w) = None →
  eval startcheck w = Raised (LookupFailure (missing_key (setup w) cmd)) ∧
  (∀ c i, c ∈ pre →
     config.get ("id-" +:+ c) (setup w) = Some (VStr i) →
     is_Some (available_entities (exec startcheck w) !! i)) ∧
  (∀ i e, available_entities w !! i = None →
     available_entities (exec startcheck w) !! i = Some e →
     ∃ c, c ∈ pre ∧ config.get ("id-" +:+ c) (setup w) = Some (VStr i)).
Proof.
  intros Hcmds Hpre Hmiss.
  change (exec startcheck w)
    with (exec (for_each startcheck_body (config.cmds (setup w))) w).
  change (eval startcheck w)
    with (eval (for_each startcheck_body (config.cmds (setup w))) w).
  rewrite Hcmds.
  destruct (loop_first_missing pre cmd post w Hpre Hmiss) as [He Ha].
  split; [ exact He | ]. rewrite Ha. split.
  - intros c i Hc Hi. by apply (loop_registers pre w c i).
  - intros i e Hnone Hsome.
    destruct (loop_new_entries pre w i e Hnone Hsome)
      as (p1 & c & p2 & n & -> & Hi & _).
    exists c. split; [ | done ].
    apply elem_of_app. right. apply elem_of_cons. by left.
Qed.

(** In [world_without_id], [a] is complete and [b] has no id. *)
Lemma startcheck_partial_registration_witness :
  eval startcheck world_without_id = Raised (LookupFailure "id-b") ∧
  (∀ c i, c ∈ ["a"] →
     config.get ("id-" +:+ c) (setup world_without_id) = Some (VStr i) →
     is_Some (available_entities (exec startcheck world_without_id) !! i)) ∧
  (∀ i e, available_entities world_without_id !! i = None →
     available_entities (exec startcheck world_without_id) !! i = Some e →
     ∃ c, c ∈ ["a"] ∧
          config.get ("id-" +:+ c) (setup world_without_id) = Some (VStr i)).
Proof.
  apply (startcheck_partial_registration world_without_id ["a"] "b" ["c"]).
  - reflexivity.
  - reflexivity.
  - left. reflexivity.
Defined.

(** ** One turn of the loop of [startcheck] *)

(** A turn for a command whose id is registered, in one equation. *)
Lemma body_skip_run (cmd i : string) (e : ucapi.MediaPlayer) (w : World) :
  config.get ("id-" +:+ cmd) (setup w) = Some (VStr i) →
  available_entities w !! i = Some e →
  startcheck_body cmd w =
    match config.get ("name-" +:+ cmd) (setup w) with
    | None => (Raised (LookupFailure ("name-" +:+ cmd)), w)
    | Some _ => (Returned tt, logged [already i] w)
    end.
Proof.
  intros Hid He.
  assert (ucapi.contains (VStr i) (available_entities w) = true) as Hc
    by (apply contains_str; eauto).
  unfold startcheck_body, bind, config_get.
  rewrite Hid; cbv beta iota.
  destruct (config.get ("name-" +:+ cmd) (setup w)); cbv beta iota;
    [ | done ].
  unfold available_contains. rewrite Hc. done.
Qed.

(** X8. For a command whose id is registered, the name is looked up
    although the skip does not use it: without a name in the store the
    turn raises the lookup failure and leaves the world as it was; with
    one, of any type, it returns having logged one DEBUG note and
    changed nothing else. *)
Theorem registered_id_still_needs_name (cmd i : string)
    (e : ucapi.MediaPlayer) (w : World) :
  config.get ("id-" +:+ cmd) (setup w) = Some (VStr i) →
  available_entities w !! i = Some e →
  startcheck_body cmd w =
    match config.get ("name-" +:+ cmd) (setup w) with
    | None => (Raised (LookupFailure ("name-" +:+ cmd)), w)
    | Some _ => (Returned tt, logged [already i] w)
    end.
Proof. apply body_skip_run. Qed.

(** In [world_with_p1], [a] has the id [p1], which is registered, and a
    name. *)
Lemma registered_id_still_needs_name_witness :
  startcheck_body "a" world_with_p1
    = (Returned tt, logged [already "p1"] world_with_p1).
Proof.
  apply (registered_id_still_needs_name "a" "p1"
           (mp_definition "p1" "Device 1") world_with_p1); reflexivity.
Defined.



(** ** [startcheck] when everything is registered *)

Lemma entry_registered_inv (w : World) (cmd : string) :
  entry_registered w cmd = true →
  ∃ i nv e,
    config.get ("id-" +:+ cmd) (setup w) = Some (VStr i) ∧
    configured_id (setup w) cmd = Some i ∧
    config.get ("name-" +:+ cmd) (setup w) = Some nv ∧
    available_entities w !! i = Some e.
Proof.
  unfold entry_registered, configured_id.
  destruct (config.get ("id-" +:+ cmd) (setup w)) as [[ | | |i]|]; try done.
  destruct (config.get ("name-" +:+ cmd) (setup w)) as [nv|]; try done.
  intros [e He]%bool_decide_eq_true. eauto 10.
Qed.

Lemma logged_logged (r1 r2 : list logging.LogRecord) (w : World) :
  logged r2 (logged r1 w) = logged (r1 ++ r2) w.
Proof. unfold logged; cbn. by rewrite app_assoc. Qed.

Lemma loop_all_registered (l : list string) (w : World) :
  forallb (entry_registered w) l = true →
  for_each startcheck_body l w =
    (Returned tt, logged (already <$> omap (configured_id (setup w)) l) w).
Proof.
  revert w. induction l as [|x l IH]; intros w Hall.
  { cbn. unfold ret, logged. rewrite app_nil_r. by destruct w. }
  cbn [forallb] in Hall. apply andb_true_iff in Hall as [Hx Hl].
  apply entry_registered_inv in Hx as (i & nv & e & Hid & Hci & Hname & He).
  pose proof (body_skip_run x i e w Hid He) as Hrun.
  rewrite Hname in Hrun.
  assert (eval (startcheck_body x) w = Returned tt) as Hev
    by (unfold eval; by rewrite Hrun).
  rewrite (for_each_returned _ _ _ _ Hev).
  unfold exec. rewrite Hrun. cbn [snd].
  rewrite IH by exact Hl.
  cbn [omap list_omap]. rewrite Hci. cbn [fmap list_fmap].
  rewrite logged_logged. reflexivity.
Qed.

(** X10. When every configured command has a name and a registered id,
    [startcheck] returns having registered nothing: all it does is log
    one DEBUG note per configured command, in the order of the list. *)
Theorem startcheck_all_registered (w : World) :
  forallb (entry_registered w) (config.cmds (setup w)) = true →
  startcheck w =
    (Returned tt,
     logged (already <$> omap (configured_id (setup w))
                           (config.cmds (setup w))) w).
Proof. intros Hall. rewrite startcheck_unfold. by apply loop_all_registered. Qed.

(** After a first run on the example of the specification, a second run
    logs the notes for [p1] and [p2]. *)
Lemma startcheck_all_registered_witness :
  startcheck (exec startcheck example_world) =
    (Returned tt,
     logged [already "p1"; already "p2"] (exec startcheck example_world)).
Proof.
  apply (startcheck_all_registered (exec startcheck example_world)).
  vm_compute. reflexivity.
Defined.

(** ** The event handlers and the store *)

(** What a handler does to the store, the registries and the device
    state. *)
Lemma listener_effect (ev : ucapi.Events) (entity_ids : list string)
    (w : World) :
  eval (listener ev entity_ids) w = Returned tt ∧
  setup (exec (listener ev entity_ids) w)
    = match standby_written ev with
      | Some b => config.set "standby" (VBool b) (setup w)
      | None => setup w
      end ∧
  available_entities (exec (listener ev entity_ids) w)
    = available_entities w ∧
  configured_entities (exec (listener ev entity_ids) w)
    = configured_entities w ∧
  device_state (exec (listener ev entity_ids) w)
    = default (device_state w) (device_written ev).
Proof. by destruct ev. Qed.

(** X11. No event handler writes a key of the store other than
    [standby], and none changes the list of commands or a registry. *)
Theorem listeners_write_standby_only (ev : ucapi.Events)
    (entity_ids : list string) (w : World) (key : string) :
  key ≠ "standby" →
  config.get key (setup (exec (listener ev entity_ids) w))
    = config.get key (setup w) ∧
  config.cmds (setup (exec (listener ev entity_ids) w))
    = config.cmds (setup w) ∧
  available_entities (exec (listener ev entity_ids) w)
    = available_entities w ∧
  configured_entities (exec (listener ev entity_ids) w)
    = configured_entities w.
Proof.
  intros Hkey.
  destruct (listener_effect ev entity_ids w) as (_ & -> & -> & -> & _).
  repeat split.
  - destruct (standby_written ev); [ | done ].
    unfold config.get, config.set; cbn. by apply lookup_insert_ne.
  - by destruct (standby_written ev).
Qed.

(** The id of command [a] survives the enter-standby handler. *)
Lemma listeners_write_standby_only_witness :
  config.get "id-a" (setup (exec (listener ucapi.ENTER_STANDBY [])
                              example_world))
    = Some (VStr "p1").
Proof.
  destruct (listeners_write_standby_only ucapi.ENTER_STANDBY []
              example_world "id-a") as [H _].
  - discriminate.
  - rewrite H. reflexivity.
Defined.

(** X12. Two event handlers run one after the other: when both write the
    standby flag, or both the device state, the second overrides the
    first; otherwise they can be swapped. In either case the log is left
    out of the comparison. *)
Theorem listeners_override_or_commute (ev1 ev2 : ucapi.Events)
    (ids1 ids2 : list string) (w : World) :
  state_of (exec (listener ev2 ids2) (exec (listener ev1 ids1) w))
    = if same_target ev1 ev2
      then state_of (exec (listener ev2 ids2) w)
      else state_of (exec (listener ev1 ids1) (exec (listener ev2 ids2) w)).
Proof.
  destruct ev1, ev2; cbn; unfold state_of; cbn;
    rewrite ?set_set_eq; reflexivity.
Qed.

(** X13. After the handlers of any sequence of events, all have
    returned, the registries and the list of commands are as they were,
    the standby flag is what the last event that writes it wrote (what it
    was, if there is none), and the device state likewise. *)
Theorem handle_all_last_write_wins (evs : list (ucapi.Events * list string))
    (w : World) :
  eval (handle_all evs) w = Returned tt ∧
  available_entities (exec (handle_all evs) w) = available_entities w ∧
  configured_entities (exec (handle_all evs) w) = configured_entities w ∧
  config.cmds (setup (exec (handle_all evs) w)) = config.cmds (setup w) ∧
  standby (exec (handle_all evs) w)
    = foldl (λ flag p, match standby_written p.1 with
                       | Some b => Some (VBool b)
                       | None => flag
                       end) (standby w) evs ∧
  device_state (exec (handle_all evs) w)
    = foldl (λ st p, default st (device_written p.1)) (device_state w) evs.
Proof.
  unfold handle_all. revert w.
  induction evs as [|[ev ids] evs IH]; intros w; [ done | ].
  destruct (listener_effect ev ids w) as (Hev & Hs & Ha & Hc & Hd).
  change (listener ev ids) with ((λ p, listener p.1 p.2) (ev, ids)) in Hev.
  rewrite (eval_for_each_returned _ _ _ _ Hev),
          (exec_for_each_returned _ _ _ _ Hev).
  cbn [fst snd foldl].
  destruct (IH (exec (listener ev ids) w)) as (-> & -> & -> & -> & -> & ->).
  rewrite Ha, Hc, Hd. unfold standby. rewrite Hs.
  repeat split.
  - by destruct (standby_written ev).
  - destruct (standby_written ev); [ | done ].
    by rewrite get_set_eq.
Qed.

(** ** [startcheck] and the events *)

Lemma id_key_not_standby (cmd : string) : "standby" ≠ "id-" +:+ cmd.
Proof. discriminate. Qed.

Lemma name_key_not_standby (cmd : string) : "standby" ≠ "name-" +:+ cmd.
Proof. discriminate. Qed.

(** A turn of the loop reads the store at the id and the name of its
    command, and the available entities; nothing else decides how it ends
    and what it registers. *)
Lemma body_reads (cmd : string) (w w2 : World) :
  config.get ("id-" +:+ cmd) (setup w2)
    = config.get ("id-" +:+ cmd) (setup w) →
  config.get ("name-" +:+ cmd) (setup w2)
    = config.get ("name-" +:+ cmd) (setup w) →
  available_entities w2 = available_entities w →
  eval (startcheck_body cmd) w2 = eval (startcheck_body cmd) w ∧
  available_entities (exec (startcheck_body cmd) w2)
    = available_entities (exec (startcheck_body cmd) w).
Proof.
  intros Hid Hname Ha.
  unfold eval, exec, startcheck_body, bind, config_get.
  rewrite Hid.
  destruct (config.get ("id-" +:+ cmd) (setup w)) as [idv|];
    cbv beta iota; [ | done ].
  rewrite Hname.
  destruct (config.get ("name-" +:+ cmd) (setup w)) as [nv|];
    cbv beta iota; [ | done ].
  unfold available_contains; cbv beta iota. rewrite Ha.
  destruct (ucapi.contains idv (available_entities w)).
  - by destruct idv.
  - destruct idv; try done. destruct nv; try done.
    cbn. by rewrite Ha.
Qed.

Lemma loop_reads (l : list string) (w w2 : World) :
  (∀ cmd, config.get ("id-" +:+ cmd) (setup w2)
            = config.get ("id-" +:+ cmd) (setup w)) →
  (∀ cmd, config.get ("name-" +:+ cmd) (setup w2)
            = config.get ("name-" +:+ cmd) (setup w)) →
  available_entities w2 = available_entities w →
  eval (for_each startcheck_body l) w2 = eval (for_each startcheck_body l) w ∧
  available_entities (exec (for_each startcheck_body l) w2)
    = available_entities (exec (for_each startcheck_body l) w).
Proof.
  revert w w2. induction l as [|x l IH]; intros w w2 Hid Hname Ha; [ done | ].
  destruct (body_reads x w w2 (Hid x) (Hname x) Ha) as [He Hav].
  destruct (eval (startcheck_body x) w) as [[]|e] eqn:E.
  - rewrite (eval_for_each_returned _ _ _ _ E),
            (eval_for_each_returned _ _ _ _ He),
            (exec_for_each_returned _ _ _ _ E),
            (exec_for_each_returned _ _ _ _ He).
    apply IH; [ | | done ]; intros cmd; by rewrite !body_setup.
  - rewrite (eval_for_each_raised _ _ _ _ _ E),
            (eval_for_each_raised _ _ _ _ _ He),
            (exec_for_each_raised _ _ _ _ _ E),
            (exec_for_each_raised _ _ _ _ _ He). done.
Qed.

(** X14. An event handled before [startcheck] does not change how
    [startcheck] ends nor what it registers, and handling it before or
    after [startcheck] leaves the same config store, registries and
    device state. *)
Theorem startcheck_ignores_events (ev : ucapi.Events)
    (entity_ids : list string) (w : World) :
  eval startcheck (exec (listener ev entity_ids) w) = eval startcheck w ∧
  available_entities (exec startcheck (exec (listener ev entity_ids) w))
    = available_entities (exec startcheck w) ∧
  state_of (exec startcheck (exec (listener ev entity_ids) w))
    = state_of (exec (listener ev entity_ids) (exec startcheck w)).
Proof.
  set (w1 := exec (listener ev entity_ids) w).
  destruct (listener_effect ev entity_ids w) as (_ & Hs & Ha & Hc & Hd).
  fold w1 in Hs, Ha, Hc, Hd.
  assert (config.cmds (setup w1) = config.cmds (setup w)) as Hcmds.
  { rewrite Hs. by destruct (standby_written ev). }
  assert (∀ key, "standby" ≠ key →
            config.get key (setup w1) = config.get key (setup w)) as Hget.
  { intros key Hkey. rewrite Hs.
    destruct (standby_written ev); [ | done ].
    unfold config.get, config.set; cbn. by apply lookup_insert_ne. }
  assert (eval startcheck w1 = eval startcheck w ∧
          available_entities (exec startcheck w1)
            = available_entities (exec startcheck w)) as [He Hav].
  { change (eval startcheck w1)
      with (eval (for_each startcheck_body (config.cmds (setup w1))) w1).
    change (exec startcheck w1)
      with (exec (for_each startcheck_body (config.cmds (setup w1))) w1).
    rewrite Hcmds. apply loop_reads; [ | | done ]; intros cmd; apply Hget.
    - apply id_key_not_standby.
    - apply name_key_not_standby. }
  split; [ exact He | ]. split; [ exact Hav | ].
  destruct (listener_effect ev entity_ids (exec startcheck w))
    as (_ & Hs' & Ha' & Hc' & Hd').
  change (exec startcheck w1)
    with (exec (for_each startcheck_body (config.cmds (setup w1))) w1) in *.
  change (exec startcheck w)
    with (exec (for_each startcheck_body (config.cmds (setup w))) w) in *.
  destruct (loop_frame (config.cmds (setup w1)) w1) as (Fs1 & Fc1 & Fd1).
  destruct (loop_frame (config.cmds (setup w)) w) as (Fs & Fc & Fd).
  unfold state_of.
  rewrite Hs', Ha', Hc', Hd', Fs1, Fc1, Fd1, Fs, Fc, Fd, Hav, Hs, Hc, Hd.
  reflexivity.
Qed.

(** * Start-up registration, command by command *)

(** A turn for a command whose id is a string that is not registered and
    whose name is a string, in one equation. *)
Lemma body_add_run (cmd i n : string) (w : World) :
  config.get ("id-" +:+ cmd) (setup w) = Some (VStr i) →
  config.get ("name-" +:+ cmd) (setup w) = Some (VStr n) →
  available_entities w !! i = None →
  startcheck_body cmd w =
    (Returned tt,
     {| setup := setup w;
        available_entities :=
          <[i := mp_definition i n]> (available_entities w);
        configured_entities := configured_entities w;
        device_state := device_state w;
        log := log w ++ [adding i n; added i n] |}).
Proof.
  intros Hid Hname Hnone.
  assert (ucapi.contains (VStr i) (available_entities w) = false) as Hc.
  { cbn. apply bool_decide_eq_false. rewrite Hnone. by intros [? ?]. }
  unfold startcheck_body, bind, config_get.
  rewrite Hid; cbv beta iota. rewrite Hname; cbv beta iota.
  unfold available_contains. rewrite Hc.
  unfold str_operand, ret, LOG_info, emit; cbv beta iota.
  rewrite add_mp_run.
  cbn [setup available_entities configured_entities device_state log].
  rewrite Hnone, <- app_assoc. reflexivity.
Qed.

(** Over commands that all have their id and name, the loop logs what the
    contract asks for. *)
Lemma loop_notes (l : list string) (w : World) :
  forallb (entry_complete (setup w)) l = true →
  log (exec (for_each startcheck_body l) w)
    = log w ++ startup_notes (setup w) (dom (available_entities w)) l.
Proof.
  revert w. induction l as [|x l IH]; intros w Hall.
  { cbn. by rewrite app_nil_r. }
  cbn [forallb] in Hall. apply andb_true_iff in Hall as [Hx Hl].
  apply entry_complete_inv in Hx as (i & n & Hid & Hname).
  cbn [startup_notes]. rewrite Hid, Hname.
  destruct (available_entities w !! i) as [e|] eqn:Hlook.
  - pose proof (body_skip_run x i e w Hid Hlook) as Hrun.
    rewrite Hname in Hrun.
    assert (eval (startcheck_body x) w = Returned tt) as Hev
      by (unfold eval; by rewrite Hrun).
    assert (exec (startcheck_body x) w = logged [already i] w) as Hex
      by (unfold exec; by rewrite Hrun).
    rewrite (exec_for_each_returned _ _ _ _ Hev), Hex.
    rewrite IH by exact Hl.
    unfold logged; cbn [setup available_entities log].
    rewrite decide_True by (apply elem_of_dom; eauto).
    by rewrite <- app_assoc.
  - pose proof (body_add_run x i n w Hid Hname Hlook) as Hrun.
    assert (eval (startcheck_body x) w = Returned tt) as Hev
      by (unfold eval; by rewrite Hrun).
    rewrite (exec_for_each_returned _ _ _ _ Hev).
    unfold exec at 2. rewrite Hrun. cbn [snd].
    rewrite IH by exact Hl.
    cbn [setup available_entities log].
    rewrite decide_False by (by apply not_elem_of_dom).
    rewrite dom_insert_L, <- app_assoc. reflexivity.
Qed.

(** In a registry that keeps every entity under its own id, exactly one
    entry holds an entity with the id of a key. *)
Lemma keyed_occurrences (storage : ucapi.Entities) (i : string)
    (e : ucapi.MediaPlayer) :
  keyed storage →
  storage !! i = Some e →
  occurrences i storage = 1.
Proof.
  intros Hk He. unfold occurrences.
  assert (filter (λ p : string * ucapi.MediaPlayer, ucapi.id p.2 = i)
            storage = {[ i := e ]}) as ->; [ | apply map_size_singleton ].
  apply map_eq. intros k.
  destruct (decide (k = i)) as [->|Hne].
  - rewrite lookup_singleton_eq. apply map_lookup_filter_Some.
    split; [ done | ]. by apply (Hk i e).
  - rewrite lookup_singleton_ne by done.
    apply map_lookup_filter_None. right. intros x Hx Hid.
    cbn in Hid. pose proof (Hk k x Hx) as Hkx. cbn in Hkx. congruence.
Qed.

(** Run on the example of the specification. *)
Example startcheck_example :
  eval startcheck example_world = Returned tt ∧
  available_entities (exec startcheck example_world) !! "p1"
    = Some (mp_definition "p1" "Device 1") ∧
  available_entities (exec startcheck example_world) !! "p2"
    = Some (mp_definition "p2" "Device 2") ∧
  size (available_entities (exec startcheck example_world)) = 2 ∧
  log (exec startcheck example_world)
    = [adding "p1" "Device 1"; added "p1" "Device 1";
       adding "p2" "Device 2"; added "p2" "Device 2"].
Proof. repeat split; vm_compute; reflexivity. Qed.

(** C1. When every configured command has its id and its name in the
    store, [startcheck] returns and goes through the commands in order.
    A command whose id is registered is skipped: the entity stays as it
    was and one DEBUG note is logged. For a command whose id is not, the
    media player with that id and name, the select-source feature, no
    attributes and the driver's command handler is registered, with the
    two INFO records. Nothing else is logged, and the config store, the
    configured entities and the device state are left alone. At the end
    every configured id is registered, in exactly one entry; an entity
    that is new has the name of the first configured command with its
    id. *)
Theorem startcheck_registers_configured (w : World) :
  config_complete (setup w) = true →
  keyed (available_entities w) →
  eval startcheck w = Returned tt ∧
  setup (exec startcheck w) = setup w ∧
  configured_entities (exec startcheck w) = configured_entities w ∧
  device_state (exec startcheck w) = device_state w ∧
  log (exec startcheck w)
    = log w ++ startup_notes (setup w) (dom (available_entities w))
                 (config.cmds (setup w)) ∧
  (∀ cmd, cmd ∈ config.cmds (setup w) →
     ∃ i n e,
       config.get ("id-" +:+ cmd) (setup w) = Some (VStr i) ∧
       config.get ("name-" +:+ cmd) (setup w) = Some (VStr n) ∧
       available_entities (exec startcheck w) !! i = Some e ∧
       ucapi.id e = i ∧
       occurrences i (available_entities (exec startcheck w)) = 1) ∧
  (∀ i e, available_entities w !! i = Some e →
     available_entities (exec startcheck w) !! i = Some e) ∧
  (∀ i e, available_entities w !! i = None →
     available_entities (exec startcheck w) !! i = Some e →
     ∃ pre cmd post n,
       config.cmds (setup w) = pre ++ cmd :: post ∧
       config.get ("id-" +:+ cmd) (setup w) = Some (VStr i) ∧
       config.get ("name-" +:+ cmd) (setup w) = Some (VStr n) ∧
       e = {| ucapi.id := i;
              ucapi.name := n;
              ucapi.features := [ucapi.SELECT_SOURCE];
              ucapi.attributes := ∅;
              ucapi.cmd_handler := ucapi.mp_cmd_handler_ref |} ∧
       ∀ c, c ∈ pre → config.get ("id-" +:+ c) (setup w) ≠ Some (VStr i)).
Proof.
  intros Hall Hk. unfold config_complete in Hall.
  change (exec startcheck w)
    with (exec (for_each startcheck_body (config.cmds (setup w))) w).
  change (eval startcheck w)
    with (eval (for_each startcheck_body (config.cmds (setup w))) w).
  set (l := config.cmds (setup w)) in *.
  pose proof (loop_keyed l w Hk) as Hk'.
  destruct (loop_frame l w) as (Hs & Hc & Hd).
  split; [ by apply loop_returns | ].
  split; [ exact Hs | ]. split; [ exact Hc | ]. split; [ exact Hd | ].
  split; [ by apply loop_notes | ].
  split; [ | split ].
  - intros cmd Hin.
    assert (entry_complete (setup w) cmd = true) as Hcmd.
    { apply (proj1 (forallb_forall _ _) Hall). by apply list_elem_of_In. }
    apply entry_complete_inv in Hcmd as (i & n & Hi & Hn).
    destruct (loop_registers l w cmd i Hall Hin Hi) as [e He].
    exists i, n, e. repeat split; try done.
    + by apply (Hk' i e).
    + by apply (keyed_occurrences _ i e).
  - intros i e. apply loop_keeps.
  - intros i e Hnone Hsome.
    destruct (loop_new_entries l w i e Hnone Hsome)
      as (pre & cmd & post & n & Hl & Hi & Hn & -> & Hpre).
    exists pre, cmd, post, n. repeat split; done.
Qed.

(** The example of the specification meets the conditions: the run
    returns with the four records of two registrations, and [p1] and
    [p2] are each in exactly one entry. *)
Lemma startcheck_registers_configured_witness :
  eval startcheck example_world = Returned tt ∧
  log (exec startcheck example_world)
    = log example_world
      ++ startup_notes (setup example_world)
           (dom (available_entities example_world)) ["a"; "b"] ∧
  ∀ cmd, cmd ∈ ["a"; "b"] →
    ∃ i n e,
      config.get ("id-" +:+ cmd) (setup example_world) = Some (VStr i) ∧
      config.get ("name-" +:+ cmd) (setup example_world) = Some (VStr n) ∧
      available_entities (exec startcheck example_world) !! i = Some e ∧
      ucapi.id e = i ∧
      occurrences i (available_entities (exec startcheck example_world)) = 1.
Proof.
  destruct (startcheck_registers_configured example_world)
    as (Hret & _ & _ & _ & Hlog & Hreg & _).
  - reflexivity.
  - apply map_Forall_empty.
  - split; [ exact Hret | ]. split; [ exact Hlog | exact Hreg ].
Defined.

(** * A missing key behind a value that is not a string *)

